(** * Helios Event System: a shallow embedding of [Source/EventSystem.hpp]

    The header declares a closed hierarchy of event classes, a process-wide
    event queue ([sEventBus]), a process-wide listener vector
    ([sEventListeners]) and the helper [EventDispatcher].  This development
    embeds those pieces as Rocq functions and states the properties of the
    specification over them.

    Conventions.
    - A C++ [int] field is a [Z]; the header performs no arithmetic on event
      fields, it only stores and prints them.
    - The loop counter of [EventSystem::Dispatch] is an [int] compared with
      a [size_t]; both conversions are written out ([INT_MAX], [SIZE_MOD]).
    - Function-local [static] objects of the [ToString] overrides are an
      explicit store that every call threads through.
    - A listener is an opaque handle; calling it is recorded in a log of
      [(listener, event)] pairs.  The model covers listeners that do not
      call back into [EventSystem] while a dispatch is running. *)

From Stdlib Require Import ZArith List String Ascii Bool Lia DecimalString.
Import ListNotations.

Local Open Scope Z_scope.

(* ------------------------------------------------------------------ *)
(** ** Tags *)

(** [enum EventType]. *)
Inductive EventType : Type :=
| Type_None
| Type_WindowCreate | Type_WindowDestroy | Type_WindowMove | Type_WindowResize
| Type_MouseMove | Type_MouseScroll | Type_MouseButtonClick | Type_MouseButtonRelease
| Type_KeyPress | Type_KeyRelease | Type_KeyType.

(** The enumerator values: [Type_None = -1], the others count up from 0. *)
Definition EventType_value (t : EventType) : Z :=
  match t with
  | Type_None => -1
  | Type_WindowCreate => 0 | Type_WindowDestroy => 1
  | Type_WindowMove => 2 | Type_WindowResize => 3
  | Type_MouseMove => 4 | Type_MouseScroll => 5
  | Type_MouseButtonClick => 6 | Type_MouseButtonRelease => 7
  | Type_KeyPress => 8 | Type_KeyRelease => 9 | Type_KeyType => 10
  end.

(** [==] on two [EventType] values compares the underlying integers. *)
Definition EventType_eqb (a b : EventType) : bool :=
  EventType_value a =? EventType_value b.

(** The classes that carry [HELIOS_EVENT_CLASS_TYPE(type)]; [EventClass]
    names the macro argument, the class is [<type>Event]. *)
Inductive EventClass : Type :=
| WindowCreate | WindowDestroy | WindowMove | WindowResize
| MouseMove | MouseScroll | MouseButtonClick | MouseButtonRelease
| KeyPress | KeyRelease | KeyType.

(** [static EventType GetStaticType() { return Type_##type; }] *)
Definition GetStaticType (T : EventClass) : EventType :=
  match T with
  | WindowCreate => Type_WindowCreate
  | WindowDestroy => Type_WindowDestroy
  | WindowMove => Type_WindowMove
  | WindowResize => Type_WindowResize
  | MouseMove => Type_MouseMove
  | MouseScroll => Type_MouseScroll
  | MouseButtonClick => Type_MouseButtonClick
  | MouseButtonRelease => Type_MouseButtonRelease
  | KeyPress => Type_KeyPress
  | KeyRelease => Type_KeyRelease
  | KeyType => Type_KeyType
  end.

(* ------------------------------------------------------------------ *)
(** ** Event values *)

(** An object of one of the sixteen classes of the hierarchy, with the
    data members of that class.  The first five constructors are the
    classes without a type macro ([IEvent] and the four category bases);
    none of them is abstract, so each can be instantiated and enqueued. *)
Inductive Event : Type :=
| IEvent
| WindowEvent
| MouseEvent
| MouseButtonEvent (mButton : Z) (mControl mShift mAlt : bool)
| KeyEvent
| WindowCreateEvent (mShowMode : Z)
| WindowDestroyEvent
| WindowMoveEvent (mX mY : Z)
| WindowResizeEvent (mWidth mHeight : Z)
| MouseMoveEvent (mX mY : Z)
| MouseScrollEvent (mOffset : Z)
| MouseButtonClickEvent (mButton : Z) (mControl mShift mAlt : bool)
| MouseButtonReleaseEvent (mButton : Z) (mControl mShift mAlt : bool)
| KeyPressEvent (mKey : Z) (mControl mShift mAlt : bool)
| KeyReleaseEvent (mKey : Z) (mControl mShift mAlt : bool)
| KeyTypeEvent (mChar : ascii).

(** The most derived class of an object, when that class is one of the
    eleven variants ([typeid] restricted to the classes that the dispatch
    switch names). *)
Definition variant_of (e : Event) : option EventClass :=
  match e with
  | IEvent | WindowEvent | MouseEvent | MouseButtonEvent _ _ _ _ | KeyEvent => None
  | WindowCreateEvent _ => Some WindowCreate
  | WindowDestroyEvent => Some WindowDestroy
  | WindowMoveEvent _ _ => Some WindowMove
  | WindowResizeEvent _ _ => Some WindowResize
  | MouseMoveEvent _ _ => Some MouseMove
  | MouseScrollEvent _ => Some MouseScroll
  | MouseButtonClickEvent _ _ _ _ => Some MouseButtonClick
  | MouseButtonReleaseEvent _ _ _ _ => Some MouseButtonRelease
  | KeyPressEvent _ _ _ _ => Some KeyPress
  | KeyReleaseEvent _ _ _ _ => Some KeyRelease
  | KeyTypeEvent _ => Some KeyType
  end.

(** [virtual EventType GetType() const]: [IEvent] returns [Type_None] and
    only the type macro overrides it. *)
Definition GetType (e : Event) : EventType :=
  match e with
  | IEvent | WindowEvent | MouseEvent | MouseButtonEvent _ _ _ _ | KeyEvent => Type_None
  | WindowCreateEvent _ => Type_WindowCreate
  | WindowDestroyEvent => Type_WindowDestroy
  | WindowMoveEvent _ _ => Type_WindowMove
  | WindowResizeEvent _ _ => Type_WindowResize
  | MouseMoveEvent _ _ => Type_MouseMove
  | MouseScrollEvent _ => Type_MouseScroll
  | MouseButtonClickEvent _ _ _ _ => Type_MouseButtonClick
  | MouseButtonReleaseEvent _ _ _ _ => Type_MouseButtonRelease
  | KeyPressEvent _ _ _ _ => Type_KeyPress
  | KeyReleaseEvent _ _ _ _ => Type_KeyRelease
  | KeyTypeEvent _ => Type_KeyType
  end.

(** [typeid(object) == typeid(<T>Event)]. *)
Definition is_instance (T : EventClass) (e : Event) : bool :=
  match variant_of e with
  | Some V => EventType_eqb (GetStaticType V) (GetStaticType T)
  | None => false
  end.

(* ------------------------------------------------------------------ *)
(** ** ToString *)

Local Open Scope string_scope.

Definition newline : string := String "010"%char EmptyString.

(** [oss << int]: decimal digits, a leading minus sign when negative. *)
Definition put_int (n : Z) : string := NilZero.string_of_int (Z.to_int n).

(** [oss << bool] without [boolalpha]. *)
Definition put_bool (b : bool) : string := if b then "1" else "0".

(** [oss << char]. *)
Definition put_char (c : ascii) : string := String c EmptyString.

(** The characters that one call of the [ToString] override of the
    object's class inserts into its stream; [None] for the classes that
    inherit [IEvent::ToString]. *)
Definition inserted_text (e : Event) : option string :=
  match e with
  | IEvent | WindowEvent | MouseEvent | MouseButtonEvent _ _ _ _ | KeyEvent => None
  | WindowCreateEvent mShowMode =>
      Some ("[Event:WindowCreate]: ShowMode: (" ++ put_int mShowMode ++ ")" ++ newline)
  | WindowDestroyEvent =>
      Some ("[Event:WindowDestroy]" ++ newline)
  | WindowMoveEvent mX mY =>
      Some ("[Event:WindowMove]: XPos: (" ++ put_int mX ++ "), YPos: (" ++ put_int mY
            ++ ")" ++ newline)
  | WindowResizeEvent mWidth mHeight =>
      Some ("[Event:WindowResize]: Width: (" ++ put_int mWidth ++ "), Height: ("
            ++ put_int mHeight ++ ")" ++ newline)
  | MouseMoveEvent mX mY =>
      Some ("[Event:MouseMove]: XPos: (" ++ put_int mX ++ "), YPos: (" ++ put_int mY
            ++ ")" ++ newline)
  | MouseScrollEvent mOffset =>
      Some ("[Event:MouseScroll]: Offset: (" ++ put_int mOffset ++ ")" ++ newline)
  | MouseButtonClickEvent mButton mControl mShift mAlt =>
      Some ("[Event:MouseButtonClick]: Button: (" ++ put_int mButton
            ++ "), Control: (" ++ put_bool mControl
            ++ "), Shift: (" ++ put_bool mShift
            ++ "), Alt: (" ++ put_bool mAlt ++ ")" ++ newline)
  | MouseButtonReleaseEvent mButton mControl mShift mAlt =>
      Some ("[Event:MouseButtonRelease]: Button: (" ++ put_int mButton
            ++ "), Control: (" ++ put_bool mControl
            ++ "), Shift: (" ++ put_bool mShift
            ++ "), Alt: (" ++ put_bool mAlt ++ ")" ++ newline)
  | KeyPressEvent mKey mControl mShift mAlt =>
      Some ("[Event:KeyPress]: Key: (" ++ put_int mKey
            ++ "), Control: (" ++ put_bool mControl
            ++ "), Shift: (" ++ put_bool mShift
            ++ "), Alt: (" ++ put_bool mAlt ++ ")" ++ newline)
  | KeyReleaseEvent mKey mControl mShift mAlt =>
      Some ("[Event:KeyRelease]: Key: (" ++ put_int mKey
            ++ "), Control: (" ++ put_bool mControl
            ++ "), Shift: (" ++ put_bool mShift
            ++ "), Alt: (" ++ put_bool mAlt ++ ")" ++ newline)
  | KeyTypeEvent mChar =>
      Some ("[Event:KeyType]: Char: (" ++ put_char mChar ++ ")" ++ newline)
  end.

(** The two function-local statics of one [ToString] override:
    [static std::ostringstream oss] (its accumulated contents) and
    [static std::string s], which is initialised by the first call that
    reaches its declaration and never assigned again. *)
Record ToStringStatics : Type := mkStatics
  { oss : string;
    s : option string }.

(** One pair of statics per override, indexed by the class. *)
Definition StaticStore : Type := EventClass -> ToStringStatics.

(** Program start: empty streams, no [s] initialised yet. *)
Definition initial_statics : StaticStore :=
  fun _ => mkStatics EmptyString None.

Definition EventClass_eqb (a b : EventClass) : bool :=
  EventType_eqb (GetStaticType a) (GetStaticType b).

Definition set_statics (T : EventClass) (c : ToStringStatics) (st : StaticStore)
  : StaticStore :=
  fun V => if EventClass_eqb V T then c else st V.

(** What a call of [e.ToString()] gives back. *)
Inductive ToStringResult : Type :=
| Described (text : string) (st : StaticStore)
| DanglingReference.

(** [virtual const std::string& ToString() const].

    An override appends its text to [oss], initialises [s] from
    [oss.str()] when [s] has not been initialised yet, and returns [s].
    [IEvent::ToString] returns a reference to a temporary. *)
Definition ToString (e : Event) (st : StaticStore) : ToStringResult :=
  match variant_of e, inserted_text e with
  | Some T, Some txt =>
      let oss' := oss (st T) ++ txt in
      let s' := match s (st T) with
                | Some old => old
                | None => oss'
                end in
      Described s' (set_statics T (mkStatics oss' (Some s')) st)
  | _, _ => DanglingReference
  end.

Local Close Scope string_scope.

(* ------------------------------------------------------------------ *)
(** ** The event system *)

(** [std::vector<T>] as far as the header uses it: the elements and the
    reserved capacity.  What a full vector grows to is the library's
    choice, so it is a parameter ([growth]) of [push_back]. *)
Record Vector (A : Type) : Type := mkVector
  { data : list A;
    capacity : nat }.

Arguments mkVector {A} _ _.
Arguments data {A} _.
Arguments capacity {A} _.

Definition reserve {A : Type} (n : nat) (v : Vector A) : Vector A :=
  if (capacity v <? n)%nat then mkVector (data v) n else v.

Definition push_back {A : Type} (growth : nat -> nat) (x : A) (v : Vector A)
  : Vector A :=
  mkVector (data v ++ [x])
           (if (List.length (data v) <? capacity v)%nat then capacity v
            else growth (capacity v)).

(** [using EventBus = std::queue<std::pair<std::any, EventType>>]: the
    front of the queue is the head of the list.  The [std::any] holds an
    object of one of the classes of the hierarchy. *)
Definition EventBus : Type := list (Event * EventType).

(** [sEventBus.size()]. *)
Definition size (bus : EventBus) : Z := Z.of_nat (List.length bus).

Definition INT_MAX : Z := 2 ^ 31 - 1.

(** [size_t] is 64 bits wide. *)
Definition SIZE_MOD : Z := 2 ^ 64.

(** [i <= sEventBus.size() + 1]: the [int] is converted to [size_t] and
    the sum is taken in [size_t]. *)
Definition loop_condition (i : Z) (bus : EventBus) : bool :=
  i mod SIZE_MOD <=? (size bus + 1) mod SIZE_MOD.

(** The case labels of the switch in [EventSystem::Dispatch]. *)
Definition has_case (t : EventType) : bool :=
  match t with
  | Type_WindowCreate | Type_WindowDestroy | Type_WindowMove | Type_WindowResize
  | Type_KeyPress | Type_KeyRelease | Type_KeyType
  | Type_MouseScroll | Type_MouseMove
  | Type_MouseButtonClick | Type_MouseButtonRelease => true
  | _ => false
  end.

(** [std::any_cast<T&>(a)]: the held object when its class is [T],
    otherwise [std::bad_any_cast] is thrown ([None]). *)
Definition any_cast (T : EventClass) (a : Event) : option Event :=
  if is_instance T a then Some a else None.

(** How a call of [EventSystem::Dispatch] ends.  [FrontOfEmptyQueue] is
    [front()] applied to an empty queue (undefined behaviour),
    [DebugBreak] is the [__debugbreak()] intrinsic raising its breakpoint
    trap, [BadAnyCast] is the exception of [any_cast], [SignedOverflow] is
    [i++] at [INT_MAX]. *)
Inductive Status : Type :=
| Completed | FrontOfEmptyQueue | DebugBreak | BadAnyCast | SignedOverflow.

Section EventSystem.

(** The callbacks ([std::function<void(const IEvent&)>]) are opaque. *)
Variable Listener : Type.

(** The capacity a full vector of the given capacity grows to. *)
Variable growth : nat -> nat.

(** The two static members of [class EventSystem]. *)
Record EventSystem : Type := mkEventSystem
  { sEventBus : EventBus;
    sEventListeners : Vector Listener }.

(** One call [listener(e)]. *)
Definition Invocation : Type := (Listener * Event)%type.

Record Outcome : Type := mkOutcome
  { status : Status;
    system : EventSystem;
    log : list Invocation }.

(** [sEventListeners.reserve(69)] *)
Definition Init (sys : EventSystem) : EventSystem :=
  mkEventSystem (sEventBus sys) (reserve 69 (sEventListeners sys)).

(** [sEventBus.push({ e, e.GetType() })]; [e] is a by-value parameter. *)
Definition AddEvent (e : Event) (sys : EventSystem) : EventSystem :=
  mkEventSystem (sEventBus sys ++ [(e, GetType e)]) (sEventListeners sys).

(** [sEventListeners.push_back(e)] *)
Definition AddEventListener (e : Listener) (sys : EventSystem) : EventSystem :=
  mkEventSystem (sEventBus sys) (push_back growth e (sEventListeners sys)).

(** [for (EventListener listener : sEventListeners) listener(e);] *)
Definition IterateThroughEventListeners (listeners : list Listener) (e : Event)
  : list Invocation :=
  map (fun listener => (listener, e)) listeners.

(** What one pass through the switch does. *)
Inductive SwitchResult : Type :=
| Delivered (calls : list Invocation)
| Trapped
| Thrown.

(** One case: [IterateThroughEventListeners(std::any_cast<T&>(event.first))]. *)
Definition Dispatch_case (T : EventClass) (listeners : list Listener) (a : Event)
  : SwitchResult :=
  match any_cast T a with
  | Some e => Delivered (IterateThroughEventListeners listeners e)
  | None => Thrown
  end.

(** [switch (event.second)], cases in the order of the source. *)
Definition Dispatch_switch (listeners : list Listener) (event : Event * EventType)
  : SwitchResult :=
  match snd event with
  | Type_WindowCreate => Dispatch_case WindowCreate listeners (fst event)
  | Type_WindowDestroy => Dispatch_case WindowDestroy listeners (fst event)
  | Type_WindowMove => Dispatch_case WindowMove listeners (fst event)
  | Type_WindowResize => Dispatch_case WindowResize listeners (fst event)
  | Type_KeyPress => Dispatch_case KeyPress listeners (fst event)
  | Type_KeyRelease => Dispatch_case KeyRelease listeners (fst event)
  | Type_KeyType => Dispatch_case KeyType listeners (fst event)
  | Type_MouseScroll => Dispatch_case MouseScroll listeners (fst event)
  | Type_MouseMove => Dispatch_case MouseMove listeners (fst event)
  | Type_MouseButtonClick => Dispatch_case MouseButtonClick listeners (fst event)
  | Type_MouseButtonRelease => Dispatch_case MouseButtonRelease listeners (fst event)
  | _ => Trapped
  end.

(** The loop of [EventSystem::Dispatch], entered with counter [i], the
    queue [bus] and the invocations made so far.  Every iteration that
    gets past the switch pops the front, so the recursion is on the
    queue. *)
Fixpoint Dispatch_loop (ls : Vector Listener) (i : Z) (bus : EventBus)
         (done : list Invocation) {struct bus} : Outcome :=
  if loop_condition i bus then
    match bus with
    | [] => mkOutcome FrontOfEmptyQueue (mkEventSystem [] ls) done
    | event :: rest =>
        match Dispatch_switch (data ls) event with
        | Delivered calls =>
            if i <? INT_MAX
            then Dispatch_loop ls (i + 1) rest (done ++ calls)
            else mkOutcome SignedOverflow (mkEventSystem rest ls) (done ++ calls)
        | Trapped => mkOutcome DebugBreak (mkEventSystem bus ls) done
        | Thrown => mkOutcome BadAnyCast (mkEventSystem bus ls) done
        end
    end
  else mkOutcome Completed (mkEventSystem bus ls) done.

(** [void EventSystem::Dispatch()] *)
Definition Dispatch (sys : EventSystem) : Outcome :=
  Dispatch_loop (sEventListeners sys) 0 (sEventBus sys) [].

(** A client program: a sequence of calls of the public interface. *)
Inductive ApiCall : Type :=
| CallInit
| CallAddEvent (e : Event)
| CallAddEventListener (e : Listener)
| CallDispatch.

(** Runs the calls in order; a dispatch that does not complete ends the
    program. *)
Fixpoint run (prog : list ApiCall) (sys : EventSystem) (done : list Invocation)
  : Outcome :=
  match prog with
  | [] => mkOutcome Completed sys done
  | CallInit :: prog' => run prog' (Init sys) done
  | CallAddEvent e :: prog' => run prog' (AddEvent e sys) done
  | CallAddEventListener e :: prog' => run prog' (AddEventListener e sys) done
  | CallDispatch :: prog' =>
      let r := Dispatch sys in
      match status r with
      | Completed => run prog' (system r) (done ++ log r)
      | _ => mkOutcome (status r) (system r) (done ++ log r)
      end
  end.

(** What a client can observe of an outcome: how it ended, the queue,
    the registered listeners and the invocations.  The capacity of the
    vector is not observable. *)
Definition observe (r : Outcome)
  : Status * EventBus * list Listener * list Invocation :=
  (status r, sEventBus (system r), data (sEventListeners (system r)), log r).

(** The state at program start: both containers empty. *)
Definition initial_system : EventSystem :=
  mkEventSystem [] (mkVector [] 0).

(** Every queued entry carries the tag of the object it holds; this is
    what [AddEvent] establishes. *)
Definition well_tagged (bus : EventBus) : Prop :=
  Forall (fun event => snd event = GetType (fst event)) bus.

End EventSystem.

Arguments mkEventSystem {Listener} _ _.
Arguments sEventBus {Listener} _.
Arguments sEventListeners {Listener} _.
Arguments mkOutcome {Listener} _ _ _.
Arguments status {Listener} _.
Arguments system {Listener} _.
Arguments log {Listener} _.
Arguments Init {Listener} _.
Arguments AddEvent {Listener} _ _.
Arguments AddEventListener {Listener} _ _ _.
Arguments IterateThroughEventListeners {Listener} _ _.
Arguments Delivered {Listener} _.
Arguments Trapped {Listener}.
Arguments Thrown {Listener}.
Arguments Dispatch_case {Listener} _ _ _.
Arguments Dispatch_switch {Listener} _ _.
Arguments Dispatch_loop {Listener} _ _ _ _.
Arguments Dispatch {Listener} _.
Arguments CallInit {Listener}.
Arguments CallAddEvent {Listener} _.
Arguments CallAddEventListener {Listener} _.
Arguments CallDispatch {Listener}.
Arguments run {Listener} _ _ _ _.
Arguments observe {Listener} _.
Arguments initial_system {Listener}.

(* ------------------------------------------------------------------ *)
(** ** EventDispatcher *)

(** [class EventDispatcher]: holds a reference to the event. *)
Record EventDispatcher : Type := mkEventDispatcher
  { mEvent : Event }.

(** [template<typename T, typename F> void Dispatch(F& func)].

    The handler receives a non-const reference to the event, so it is a
    function from the event and the handler's own state [W] to the event
    as the handler leaves it and the new state.  The result of [Dispatch]
    is the event and the state after the call. *)
Definition EventDispatcher_Dispatch {W : Type} (T : EventClass)
           (func : Event -> W -> Event * W) (d : EventDispatcher) (w : W)
  : Event * W :=
  if EventType_eqb (GetType (mEvent d)) (GetStaticType T)
  then func (mEvent d) w
  else (mEvent d, w).

(* ------------------------------------------------------------------ *)
(** ** Notions used to state the properties *)

(** The invocations made by delivering the given entries, front first. *)
Definition deliveries {Listener : Type} (listeners : list Listener)
           (entries : EventBus) : list (Invocation Listener) :=
  flat_map (fun event => IterateThroughEventListeners listeners (fst event)) entries.

(** The events that one listener received, in the order of the calls. *)
Definition received_by {Listener : Type} (same : Listener -> Listener -> bool)
           (listener : Listener) (calls : list (Invocation Listener)) : list Event :=
  map snd (filter (fun call => same listener (fst call)) calls).

(** A growth policy for the examples: a full vector doubles. *)
Definition doubling (c : nat) : nat := Nat.max 1 (2 * c).

(** [AddEvent] called once per event, in list order. *)
Definition enqueue_all {Listener : Type} (events : list Event)
           (sys : EventSystem Listener) : EventSystem Listener :=
  fold_left (fun acc e => AddEvent e acc) events sys.

(** [KeyPressEvent('a')] and [MouseButtonClickEvent(2)], the two events of
    [Examples/main.cpp], and two more events of other classes. *)
Definition key_a : Event := KeyPressEvent 97 false false false.

Definition click_2 : Event := MouseButtonClickEvent 2 false false false.

Definition resize : Event := WindowResizeEvent 800 600.

Definition typed_a : Event := KeyTypeEvent "a"%char.

(** One listener registered, then four events enqueued. *)
Definition four_queued : EventSystem nat :=
  enqueue_all [key_a; click_2; resize; typed_a]
              (AddEventListener doubling 1%nat initial_system).

(** A handler that leaves the event alone and counts its calls. *)
Definition counting_handler (e : Event) (calls : nat) : Event * nat :=
  (e, S calls).

(** The string a call returned, if it returned one. *)
Definition returned_text (r : ToStringResult) : option string :=
  match r with
  | Described text _ => Some text
  | DanglingReference => None
  end.

(** The statics after a call made in [st]. *)
Definition statics_after (r : ToStringResult) (st : StaticStore) : StaticStore :=
  match r with
  | Described _ st' => st'
  | DanglingReference => st
  end.

(** [AddEventListener] called once per listener, in list order. *)
Definition register_all {Listener : Type} (growth : nat -> nat)
           (listeners : list Listener) (sys : EventSystem Listener)
  : EventSystem Listener :=
  fold_left (fun acc e => AddEventListener growth e acc) listeners sys.

(** Two states that differ at most in the capacity of the vector. *)
Definition same_contents {Listener : Type} (a b : EventSystem Listener) : Prop :=
  sEventBus a = sEventBus b /\
  data (sEventListeners a) = data (sEventListeners b).

(* ------------------------------------------------------------------ *)
(** ** Categories *)

(** [enum EventCategory]. *)
Inductive EventCategory : Type :=
| Category_None
| Category_Window | Category_Mouse | Category_MouseButton | Category_Keyboard.

(** The enumerator values: [-1] and [1 << 0] to [1 << 3]. *)
Definition EventCategory_value (c : EventCategory) : Z :=
  match c with
  | Category_None => -1
  | Category_Window => Z.shiftl 1 0
  | Category_Mouse => Z.shiftl 1 1
  | Category_MouseButton => Z.shiftl 1 2
  | Category_Keyboard => Z.shiftl 1 3
  end.

(** [virtual EventCategory GetCategory() const]: [IEvent] returns
    [Category_None]; [WindowEvent], [MouseEvent], [MouseButtonEvent] and
    [KeyEvent] override it through [HELIOS_EVENT_CLASS_CATEGORY] and their
    derived classes inherit the override.  [MouseButtonEvent] derives from
    [IEvent], not from [MouseEvent]. *)
Definition GetCategory (e : Event) : EventCategory :=
  match e with
  | IEvent => Category_None
  | WindowEvent | WindowCreateEvent _ | WindowDestroyEvent
  | WindowMoveEvent _ _ | WindowResizeEvent _ _ => Category_Window
  | MouseEvent | MouseMoveEvent _ _ | MouseScrollEvent _ => Category_Mouse
  | MouseButtonEvent _ _ _ _ | MouseButtonClickEvent _ _ _ _
  | MouseButtonReleaseEvent _ _ _ _ => Category_MouseButton
  | KeyEvent | KeyPressEvent _ _ _ _ | KeyReleaseEvent _ _ _ _
  | KeyTypeEvent _ => Category_Keyboard
  end.

(* ------------------------------------------------------------------ *)
(** ** The example program, [Examples/main.cpp] *)

(** What the listener of the example acts on: the characters written to
    [std::cout] and the statics of the [ToString] overrides. *)
Record Process : Type := mkProcess
  { console : string;
    statics : StaticStore }.

(** [static_cast<char>(int)]: the value modulo 256. *)
Definition char_of_int (n : Z) : ascii := ascii_of_N (Z.to_N (n mod 256)).

(** The inner lambda:
    [std::cout << static_cast<char>(keypress.GetKey()) << "\n"].  It is
    only ever called on a [KeyPressEvent]. *)
Definition print_key (keypress : Event) (cout : string) : Event * string :=
  match keypress with
  | KeyPressEvent mKey _ _ _ =>
      (keypress, (cout ++ put_char (char_of_int mKey) ++ newline)%string)
  | _ => (keypress, cout)
  end.

(** The listener of the example: prints [e.ToString()], then hands the
    event to an [EventDispatcher] asked for [KeyPressEvent].  [None] when
    [ToString] gives a dangling reference. *)
Definition main_listener (e : Event) (p : Process) : option Process :=
  match ToString e (statics p) with
  | Described text st =>
      let cout := (console p ++ text)%string in
      Some (mkProcess
              (snd (EventDispatcher_Dispatch KeyPress print_key
                                             (mkEventDispatcher e) cout))
              st)
  | DanglingReference => None
  end.

(** The effect of a log of invocations on the state the listeners act
    on, given what each listener does; the calls happen in log order. *)
Fixpoint replay {Listener World : Type}
         (call : Listener -> Event -> World -> option World)
         (calls : list (Listener * Event)) (w : World) : option World :=
  match calls with
  | [] => Some w
  | (listener, e) :: calls' =>
      match call listener e w with
      | Some w' => replay call calls' w'
      | None => None
      end
  end.

(** The calls of [main], with the key and the button as parameters. *)
Definition example_program (key button : Z) : list (ApiCall unit) :=
  [CallAddEvent (KeyPressEvent key false false false);
   CallAddEvent (MouseButtonClickEvent button false false false);
   CallAddEventListener tt;
   CallDispatch].

(** How the program ends and what it has printed. *)
Definition example_run (key button : Z) : Status * option string :=
  let r := run doubling (example_program key button) initial_system [] in
  (status r,
   option_map console
              (replay (fun _ => main_listener) (log r)
                      (mkProcess EmptyString initial_statics))).

(** [int main()]: the key is ['a'], the button is 2. *)
Definition main : Status * option string := example_run 97 2.

(* ------------------------------------------------------------------ *)
(** ** Further notions used to state the properties *)

(** [ToString] called on each object in turn: the strings returned and
    the statics at the end. *)
Fixpoint ToString_each (events : list Event) (st : StaticStore)
  : list (option string) * StaticStore :=
  match events with
  | [] => ([], st)
  | e :: events' =>
      let r := ToString e st in
      let rest := ToString_each events' (statics_after r st) in
      (returned_text r :: fst rest, snd rest)
  end.

(** The text that the overrides format for the given objects, one after
    the other. *)
Fixpoint formatted_text (events : list Event) : string :=
  match events with
  | [] => EmptyString
  | e :: events' =>
      (match inserted_text e with
       | Some text => text
       | None => EmptyString
       end ++ formatted_text events')%string
  end.

(** [Dispatch<T>] tried for each class in turn on one dispatcher, with a
    handler that counts its calls. *)
Definition dispatch_each (classes : list EventClass) (e : Event) : nat :=
  fold_left
    (fun calls T =>
       snd (EventDispatcher_Dispatch T counting_handler (mkEventDispatcher e) calls))
    classes 0%nat.


(** The listeners that a program registers. *)
Definition registered {Listener : Type} (prog : list (ApiCall Listener))
  : list Listener :=
  flat_map (fun call => match call with
                        | CallAddEventListener e => [e]
                        | _ => []
                        end) prog.

(** Every queued entry has a case label in the switch. *)
Definition all_handled (bus : EventBus) : Prop :=
  Forall (fun event => has_case (snd event) = true) bus.

(* ================================================================== *)
(** * Properties *)

(* ------------------------------------------------------------------ *)
(** ** Tags and classes *)

Lemma EventType_eqb_eq (a b : EventType) :
  EventType_eqb a b = true <-> a = b.
Proof.
  split.
  - destruct a, b; intro H; try reflexivity; discriminate H.
  - intros ->. destruct b; reflexivity.
Qed.

Lemma EventType_eqb_neq (a b : EventType) :
  EventType_eqb a b = false <-> a <> b.
Proof.
  rewrite <- EventType_eqb_eq.
  destruct (EventType_eqb a b); split; congruence.
Qed.

Lemma GetStaticType_injective (T V : EventClass) :
  GetStaticType T = GetStaticType V -> T = V.
Proof. destruct T, V; intro H; try reflexivity; discriminate H. Qed.


(** The type macro: the virtual [GetType] of an object of a variant
    class returns the static tag of that class. *)
Lemma GetType_variant_of (e : Event) (T : EventClass) :
  variant_of e = Some T -> GetType e = GetStaticType T.
Proof. destruct e; intro H; inversion H; reflexivity. Qed.

Lemma GetType_no_variant (e : Event) :
  variant_of e = None <-> GetType e = Type_None.
Proof. destruct e; split; intro H; try reflexivity; discriminate H. Qed.

(** A tag that equals the static tag of [T] identifies the class. *)
Lemma is_instance_GetType (T : EventClass) (e : Event) :
  is_instance T e = true <-> GetType e = GetStaticType T.
Proof.
  unfold is_instance.
  destruct (variant_of e) as [V|] eqn:HV.
  - rewrite (GetType_variant_of e V HV). apply EventType_eqb_eq.
  - apply GetType_no_variant in HV. rewrite HV.
    split; [discriminate | destruct T; discriminate].
Qed.

Lemma is_instance_variant_of (T : EventClass) (e : Event) :
  is_instance T e = true <-> variant_of e = Some T.
Proof.
  unfold is_instance. destruct (variant_of e) as [V|].
  - rewrite EventType_eqb_eq. split; intro H.
    + f_equal. now apply GetStaticType_injective.
    + now inversion H.
  - split; discriminate.
Qed.

(* ------------------------------------------------------------------ *)
(** ** The switch *)

Section SwitchFacts.

Context {Listener : Type}.
Implicit Types (listeners : list Listener) (event : Event * EventType).

Lemma Dispatch_case_Delivered T listeners a calls :
  Dispatch_case T listeners a = Delivered calls ->
  calls = IterateThroughEventListeners listeners a.
Proof.
  unfold Dispatch_case, any_cast.
  destruct (is_instance T a); intro H; inversion H; reflexivity.
Qed.

(** The switch never traps in a case: a case delivers or throws. *)
Lemma Dispatch_case_not_Trapped T listeners a :
  Dispatch_case T listeners a <> Trapped.
Proof.
  unfold Dispatch_case. destruct (any_cast T a); discriminate.
Qed.

(** Whatever the switch delivers is one call per registered listener,
    in the order of the vector, all with the held object. *)
Lemma Dispatch_switch_Delivered listeners event calls :
  Dispatch_switch listeners event = Delivered calls ->
  calls = IterateThroughEventListeners listeners (fst event).
Proof.
  unfold Dispatch_switch.
  destruct (snd event); try discriminate; apply Dispatch_case_Delivered.
Qed.

(** The default label is taken exactly by the tags without a case. *)
Lemma Dispatch_switch_Trapped listeners event :
  Dispatch_switch listeners event = Trapped <-> has_case (snd event) = false.
Proof.
  unfold Dispatch_switch.
  destruct (snd event); simpl; split; intro H;
    try reflexivity; try discriminate H;
    exfalso; eapply Dispatch_case_not_Trapped; exact H.
Qed.

(** On an entry as [AddEvent] builds it, a case label means delivery. *)
Lemma Dispatch_switch_well_tagged listeners event :
  snd event = GetType (fst event) ->
  has_case (snd event) = true ->
  Dispatch_switch listeners event
  = Delivered (IterateThroughEventListeners listeners (fst event)).
Proof.
  intros Htag Hcase. unfold Dispatch_switch, Dispatch_case, any_cast.
  destruct (snd event) eqn:E; try discriminate Hcase;
    match goal with
    | |- context [is_instance ?T ?a] =>
        replace (is_instance T a) with true; [reflexivity|];
        symmetry; apply is_instance_GetType; now rewrite <- Htag
    end.
Qed.

End SwitchFacts.

(* ------------------------------------------------------------------ *)
(** ** The dispatch loop *)

Section LoopFacts.

Context {Listener : Type}.
Implicit Types (ls : Vector Listener) (bus : EventBus)
         (done : list (Invocation Listener)).

Lemma deliveries_app listeners (xs ys : EventBus) :
  deliveries (Listener := Listener) listeners (xs ++ ys)
  = deliveries listeners xs ++ deliveries listeners ys.
Proof. apply flat_map_app. Qed.

Lemma deliveries_length listeners (xs : EventBus) :
  List.length (deliveries (Listener := Listener) listeners xs)
  = (List.length xs * List.length listeners)%nat.
Proof.
  induction xs as [|x xs IH]; simpl; [reflexivity|].
  rewrite length_app, IH. unfold IterateThroughEventListeners.
  now rewrite length_map.
Qed.

(** One iteration on an empty queue. *)
Lemma Dispatch_loop_nil ls i done :
  Dispatch_loop ls i [] done
  = if loop_condition i []
    then mkOutcome FrontOfEmptyQueue (mkEventSystem [] ls) done
    else mkOutcome Completed (mkEventSystem [] ls) done.
Proof. reflexivity. Qed.

(** One iteration on a non-empty queue. *)
Lemma Dispatch_loop_cons ls i event rest done :
  Dispatch_loop ls i (event :: rest) done
  = if loop_condition i (event :: rest) then
      match Dispatch_switch (data ls) event with
      | Delivered calls =>
          if i <? INT_MAX
          then Dispatch_loop ls (i + 1) rest (done ++ calls)
          else mkOutcome SignedOverflow (mkEventSystem rest ls) (done ++ calls)
      | Trapped => mkOutcome DebugBreak (mkEventSystem (event :: rest) ls) done
      | Thrown => mkOutcome BadAnyCast (mkEventSystem (event :: rest) ls) done
      end
    else mkOutcome Completed (mkEventSystem (event :: rest) ls) done.
Proof. reflexivity. Qed.

(** However the loop ends, it has delivered a prefix of the queue, each
    entry of the prefix once to every listener, and exactly that prefix
    is gone from the queue.  The listener vector is untouched. *)
Lemma Dispatch_loop_prefix bus :
  forall ls i done,
  exists k : nat,
    (k <= List.length bus)%nat /\
    sEventBus (system (Dispatch_loop ls i bus done)) = skipn k bus /\
    sEventListeners (system (Dispatch_loop ls i bus done)) = ls /\
    log (Dispatch_loop ls i bus done)
    = done ++ deliveries (data ls) (firstn k bus).
Proof.
  induction bus as [|event rest IH]; intros ls i done.
  - exists 0%nat. rewrite Dispatch_loop_nil.
    destruct (loop_condition i []); simpl; rewrite app_nil_r; auto.
  - rewrite Dispatch_loop_cons.
    destruct (loop_condition i (event :: rest)).
    + destruct (Dispatch_switch (data ls) event) as [calls| |] eqn:Hsw.
      * apply Dispatch_switch_Delivered in Hsw. subst calls.
        destruct (i <? INT_MAX).
        -- destruct (IH ls (i + 1) (done ++ IterateThroughEventListeners (data ls) (fst event)))
             as (k & Hk & Hbus & Hls & Hlog).
           exists (S k). rewrite Hbus, Hls, Hlog. simpl.
           rewrite <- app_assoc. repeat split; auto. lia.
        -- exists 1%nat. simpl. rewrite app_nil_r. repeat split; auto. lia.
      * exists 0%nat. simpl. rewrite app_nil_r. repeat split; auto. lia.
      * exists 0%nat. simpl. rewrite app_nil_r. repeat split; auto. lia.
    + exists 0%nat. simpl. rewrite app_nil_r. repeat split; auto. lia.
Qed.

(** How many iterations the loop makes.  Entered with counter [i] on a
    queue of [n] handled, well tagged entries, the iteration number
    [j] (from 0) runs when [i + 2 * j <= n + 1]: the counter goes up
    while the size goes down.  So the loop either runs off the end of
    the queue (when [i + n <= 1]) or stops after [k] entries, where [k]
    is the least number with [i + 2 * k > n + 1]. *)
Lemma Dispatch_loop_count bus :
  forall ls i done,
    0 <= i ->
    i + size bus < INT_MAX ->
    well_tagged bus ->
    Forall (fun event => has_case (snd event) = true) bus ->
    if i + size bus <=? 1
    then status (Dispatch_loop ls i bus done) = FrontOfEmptyQueue /\
         log (Dispatch_loop ls i bus done) = done ++ deliveries (data ls) bus
    else status (Dispatch_loop ls i bus done) = Completed /\
         exists k : nat,
           (k <= List.length bus)%nat /\
           i + 2 * Z.of_nat k > size bus + 1 /\
           (k = 0%nat \/ i + 2 * Z.of_nat k <= size bus + 3) /\
           sEventBus (system (Dispatch_loop ls i bus done)) = skipn k bus /\
           log (Dispatch_loop ls i bus done)
           = done ++ deliveries (data ls) (firstn k bus).
Proof.
  assert (Hcond : forall i b, 0 <= i -> i + size b < INT_MAX ->
                    loop_condition i b = (i <=? size b + 1)).
  { intros i b Hi Hb. unfold loop_condition, SIZE_MOD.
    unfold INT_MAX in Hb. unfold size in *.
    rewrite !Z.mod_small by lia. reflexivity. }
  induction bus as [|event rest IH]; intros ls i done Hi Hsmall Htag Hcase.
  - rewrite Dispatch_loop_nil, Hcond by assumption.
    unfold size in *. simpl List.length in *. simpl Z.of_nat in *.
    destruct (i + 0 <=? 1) eqn:E1.
    + replace (i <=? 0 + 1) with true by lia.
      simpl. now rewrite app_nil_r.
    + replace (i <=? 0 + 1) with false by lia.
      simpl. split; [reflexivity|]. exists 0%nat. simpl.
      rewrite app_nil_r. repeat split; auto; lia.
  - inversion Htag as [|? ? Htag1 Htag']; subst.
    inversion Hcase as [|? ? Hcase1 Hcase']; subst.
    rewrite Dispatch_loop_cons, Hcond by assumption.
    rewrite (Dispatch_switch_well_tagged _ _ Htag1 Hcase1).
    assert (Hsz : size (event :: rest) = size rest + 1).
    { unfold size. simpl List.length. lia. }
    rewrite Hsz in *.
    destruct (i <=? size rest + 1 + 1) eqn:Erun.
    + replace (i <? INT_MAX) with true by (unfold size in *; lia).
      specialize (IH ls (i + 1)
                     (done ++ IterateThroughEventListeners (data ls) (fst event))).
      replace (i + 1 + size rest) with (i + (size rest + 1)) in IH by lia.
      destruct (i + (size rest + 1) <=? 1) eqn:E1.
      * destruct IH as [Hst Hlog]; try assumption; try lia.
        split; [assumption|]. rewrite Hlog. simpl. now rewrite app_assoc.
      * destruct IH as [Hst (k & Hk & Hgt & Hle & Hbus & Hlog)];
          try assumption; try lia.
        split; [assumption|]. exists (S k).
        rewrite Hbus, Hlog. simpl firstn. simpl skipn. simpl deliveries.
        rewrite <- app_assoc.
        repeat split; auto; simpl List.length; lia.
    + replace (i + (size rest + 1) <=? 1) with false by (unfold size in *; lia).
      simpl. split; [reflexivity|]. exists 0%nat. simpl.
      rewrite app_nil_r. repeat split; auto; lia.
Qed.

End LoopFacts.

(** [Dispatch] on a queue of [n] entries that [AddEvent] made, all with
    a case label: with at most one entry the loop reads the front of an
    empty queue; otherwise it returns after [k] entries, where
    [n + 1 < 2 * k <= n + 3]. *)
Lemma Dispatch_count {Listener : Type} (sys : EventSystem Listener) :
  size (sEventBus sys) < INT_MAX ->
  well_tagged (sEventBus sys) ->
  Forall (fun event => has_case (snd event) = true) (sEventBus sys) ->
  if size (sEventBus sys) <=? 1
  then status (Dispatch sys) = FrontOfEmptyQueue
  else status (Dispatch sys) = Completed /\
       exists k : nat,
         (k <= List.length (sEventBus sys))%nat /\
         size (sEventBus sys) + 1 < 2 * Z.of_nat k <= size (sEventBus sys) + 3 /\
         sEventBus (system (Dispatch sys)) = skipn k (sEventBus sys) /\
         log (Dispatch sys)
         = deliveries (data (sEventListeners sys)) (firstn k (sEventBus sys)).
Proof.
  intros Hsmall Htag Hcase.
  pose proof (Dispatch_loop_count (sEventBus sys) (sEventListeners sys) 0 []
                (Z.le_refl 0) Hsmall Htag Hcase) as H.
  unfold Dispatch. rewrite Z.add_0_l in H.
  destruct (size (sEventBus sys) <=? 1) eqn:E.
  - apply H.
  - destruct H as [Hst (k & Hk & Hgt & Hle & Hbus & Hlog)].
    split; [assumption|]. exists k. simpl in Hlog.
    unfold size in *. repeat split; auto; lia.
Qed.

(** X11.  The extent of the loop bound: [Dispatch] delivers every queued
    entry and returns with an empty queue exactly when the queue holds
    two or three entries. *)
Lemma Dispatch_drains_iff {Listener : Type} (sys : EventSystem Listener) :
  size (sEventBus sys) < INT_MAX ->
  well_tagged (sEventBus sys) ->
  Forall (fun event => has_case (snd event) = true) (sEventBus sys) ->
  (status (Dispatch sys) = Completed /\
   sEventBus (system (Dispatch sys)) = [] /\
   log (Dispatch sys) = deliveries (data (sEventListeners sys)) (sEventBus sys))
  <-> (size (sEventBus sys) = 2 \/ size (sEventBus sys) = 3).
Proof.
  intros Hsmall Htag Hcase.
  pose proof (Dispatch_count sys Hsmall Htag Hcase) as H.
  destruct (size (sEventBus sys) <=? 1) eqn:E.
  - split.
    + intros [Hst _]. rewrite H in Hst. discriminate.
    + lia.
  - destruct H as [Hst (k & Hk & Hbound & Hbus & Hlog)].
    unfold size in *. split.
    + intros (_ & Hempty & _). rewrite Hbus in Hempty.
      apply (f_equal (@List.length _)) in Hempty.
      rewrite length_skipn in Hempty. simpl in Hempty. lia.
    + intro Hn.
      assert (Hkn : k = List.length (sEventBus sys)) by lia.
      rewrite Hbus, Hlog, Hkn, skipn_all, firstn_all. auto.
Qed.

(** [Examples/main.cpp]: a key press and a mouse click are enqueued, one
    listener is registered, [Dispatch] is called.  With two entries the
    loop makes exactly two iterations: both events reach the listener in
    order and the queue ends empty. *)
Lemma Dispatch_main_example :
  Dispatch (AddEventListener doubling 1%nat
              (enqueue_all [key_a; click_2] initial_system))
  = mkOutcome Completed
              (mkEventSystem [] (mkVector [1%nat] 1))
              [(1%nat, key_a); (1%nat, click_2)].
Proof. reflexivity. Qed.

(* ------------------------------------------------------------------ *)
(** ** The claims about [Dispatch] as a whole *)

(** C1 (the code departs from the claim).  Four events are enqueued and
    [Dispatch] is called once: the call returns normally, the one
    registered listener has been invoked three times, with the first
    three events in the order they were enqueued, and never with the
    fourth.  The claim asks for four invocations. *)
Theorem Dispatch_four_events_three_invocations :
  status (Dispatch four_queued) = Completed /\
  log (Dispatch four_queued) = [(1%nat, key_a); (1%nat, click_2); (1%nat, resize)] /\
  received_by Nat.eqb 1%nat (log (Dispatch four_queued)) = [key_a; click_2; resize] /\
  List.length (received_by Nat.eqb 1%nat (log (Dispatch four_queued))) <> 4%nat.
Proof.
  repeat split; try reflexivity. vm_compute. discriminate.
Qed.

(** C2 (the code departs from the claim).  After [Dispatch] has returned
    from a queue of four entries, the last entry is still in the queue. *)
Theorem Dispatch_leaves_fourth_entry :
  forall (ls : Vector nat),
    let sys := enqueue_all [key_a; click_2; resize; typed_a]
                           (mkEventSystem [] ls) in
    status (Dispatch sys) = Completed /\
    sEventBus (system (Dispatch sys)) = [(typed_a, Type_KeyType)] /\
    sEventBus (system (Dispatch sys)) <> [].
Proof.
  intros ls sys. repeat split; try reflexivity. discriminate.
Qed.

(** C3 (the code departs from the claim).  Called on an empty queue,
    [Dispatch] enters the loop body, because [0 <= 0 + 1], and applies
    [front()] to the empty queue.  No listener has been invoked at that
    point, but the call is not a no-op. *)
Theorem Dispatch_empty_reads_front :
  forall (Listener : Type) (ls : Vector Listener),
    loop_condition 0 [] = true /\
    Dispatch (mkEventSystem [] ls)
    = mkOutcome FrontOfEmptyQueue (mkEventSystem [] ls) [].
Proof.
  intros Listener ls. split; reflexivity.
Qed.

(* ------------------------------------------------------------------ *)
(** ** EventDispatcher::Dispatch *)

(** C4.  [EventDispatcher(e).Dispatch<T>(func)] calls [func] exactly when
    the dynamic tag of [e] is the static tag of [T].  On a match the
    result is that of the one call [func(e)], and [e] is an object of
    class [T], so the narrowing cast is sound; on a mismatch [func] is
    not called and both the event and the handler's state are as before.
    Measured with a counting handler, the number of calls is 1 on a match
    and 0 otherwise.  The function is total: no outcome is an error. *)
Theorem EventDispatcher_Dispatch_iff_tag_matches :
  forall (W : Type) (T : EventClass) (func : Event -> W -> Event * W)
         (e : Event) (w : W),
    (GetType e = GetStaticType T ->
     EventDispatcher_Dispatch T func (mkEventDispatcher e) w = func e w /\
     variant_of e = Some T) /\
    (GetType e <> GetStaticType T ->
     EventDispatcher_Dispatch T func (mkEventDispatcher e) w = (e, w)) /\
    (snd (EventDispatcher_Dispatch T counting_handler (mkEventDispatcher e) 0%nat)
     = 1%nat <-> GetType e = GetStaticType T) /\
    (snd (EventDispatcher_Dispatch T counting_handler (mkEventDispatcher e) 0%nat)
     = 0%nat <-> GetType e <> GetStaticType T).
Proof.
  intros W T func e w. unfold EventDispatcher_Dispatch. simpl mEvent.
  destruct (EventType_eqb (GetType e) (GetStaticType T)) eqn:E.
  - apply EventType_eqb_eq in E. repeat split; intros; try congruence.
    + apply is_instance_variant_of, is_instance_GetType, E.
    + simpl in *. discriminate.
  - apply EventType_eqb_neq in E. repeat split; intros; try congruence.
    simpl in *. discriminate.
Qed.

(** C4 at a key press: asked for [KeyPress] the handler runs once, asked
    for [MouseButtonClick] it does not run. *)
Lemma EventDispatcher_Dispatch_iff_tag_matches_witness :
  EventDispatcher_Dispatch KeyPress counting_handler (mkEventDispatcher key_a) 0%nat
  = (key_a, 1%nat) /\
  EventDispatcher_Dispatch MouseButtonClick counting_handler
                           (mkEventDispatcher key_a) 0%nat
  = (key_a, 0%nat).
Proof.
  pose proof (EventDispatcher_Dispatch_iff_tag_matches
                nat KeyPress counting_handler key_a 0%nat) as [Hyes _].
  pose proof (EventDispatcher_Dispatch_iff_tag_matches
                nat MouseButtonClick counting_handler key_a 0%nat) as [_ [Hno _]].
  split.
  - destruct (Hyes eq_refl) as [H _]. exact H.
  - apply Hno. discriminate.
Defined.

(* ------------------------------------------------------------------ *)
(** ** ToString *)

Lemma EventClass_eqb_refl (T : EventClass) : EventClass_eqb T T = true.
Proof. destruct T; reflexivity. Qed.

(** X1.  The first call of an override in a program returns the
    description of the object it was called on. *)
Lemma ToString_first_call (e : Event) (T : EventClass) (st : StaticStore) :
  variant_of e = Some T ->
  st T = mkStatics EmptyString None ->
  returned_text (ToString e st) = inserted_text e.
Proof.
  intros HT Hst. unfold ToString. rewrite HT.
  destruct (inserted_text e) as [txt|] eqn:Htxt.
  - simpl. now rewrite Hst.
  - destruct e; discriminate.
Qed.

(** X2.  Once an override has been called, it returns the same string
    for ever, whatever object it is called on. *)
Lemma ToString_later_calls (e e' : Event) (T : EventClass) (st : StaticStore) :
  variant_of e = Some T ->
  variant_of e' = Some T ->
  returned_text (ToString e' (statics_after (ToString e st) st))
  = returned_text (ToString e st).
Proof.
  intros HT HT'. unfold ToString. rewrite HT, HT'.
  destruct (inserted_text e) as [txt|] eqn:Htxt; [|destruct e; discriminate].
  destruct (inserted_text e') as [txt'|] eqn:Htxt'; [|destruct e'; discriminate].
  simpl. unfold set_statics. rewrite EventClass_eqb_refl. reflexivity.
Qed.

(** C5 (the code departs from the claim).  In a fresh program a key
    press with key 97 is described as the specification says.  A second
    key press, with key 98 and Alt held, is then described with the very
    same string: it lists the fields of the first instance, not its own.
    The text the second call formats (and appends to the stream) is
    different; it is not what the call returns. *)
Theorem ToString_second_instance_returns_first_description :
  let first := KeyPressEvent 97 false false false in
  let second := KeyPressEvent 98 false false true in
  let expected_first :=
    ("[Event:KeyPress]: Key: (97), Control: (0), Shift: (0), Alt: (0)"
       ++ newline)%string in
  let expected_second :=
    ("[Event:KeyPress]: Key: (98), Control: (0), Shift: (0), Alt: (1)"
       ++ newline)%string in
  let st1 := statics_after (ToString first initial_statics) initial_statics in
  returned_text (ToString first initial_statics) = Some expected_first /\
  inserted_text second = Some expected_second /\
  returned_text (ToString second st1) = Some expected_first /\
  returned_text (ToString second st1) <> Some expected_second.
Proof.
  repeat split; try reflexivity. vm_compute. discriminate.
Qed.

(* ------------------------------------------------------------------ *)
(** ** Entries without a case label *)

(** C6.  Whenever the loop of [Dispatch] takes up an entry whose tag has
    no case label, the call ends there in the breakpoint trap: no
    listener is invoked for the entry, nothing is popped (the entry is
    still at the front of the queue) and no later entry is looked at.
    [Type_None] is such a tag.  In particular this is what happens when
    the entry is at the front of the queue as [Dispatch] is called. *)
Theorem Dispatch_traps_on_tag_without_case :
  forall (Listener : Type) (ls : Vector Listener) (i : Z)
         (event : Event * EventType) (rest : EventBus)
         (done : list (Invocation Listener)),
    has_case (snd event) = false ->
    loop_condition i (event :: rest) = true ->
    Dispatch_loop ls i (event :: rest) done
    = mkOutcome DebugBreak (mkEventSystem (event :: rest) ls) done /\
    Dispatch (mkEventSystem (event :: rest) ls)
    = mkOutcome DebugBreak (mkEventSystem (event :: rest) ls) [] /\
    has_case Type_None = false.
Proof.
  intros Listener ls i event rest done Hcase Hloop.
  assert (Hsw : Dispatch_switch (data ls) event = Trapped)
    by now apply Dispatch_switch_Trapped.
  split; [|split; [|reflexivity]].
  - now rewrite Dispatch_loop_cons, Hloop, Hsw.
  - unfold Dispatch. simpl sEventBus. simpl sEventListeners.
    rewrite Dispatch_loop_cons, Hsw.
    replace (loop_condition 0 (event :: rest)) with true; [reflexivity|].
    symmetry. unfold loop_condition. apply Z.leb_le.
    rewrite Z.mod_0_l by (unfold SIZE_MOD; lia).
    apply Z.mod_pos_bound. unfold SIZE_MOD. lia.
Qed.

(** C6 at the second iteration: a plain [IEvent] object queued behind a
    key press stops the dispatch after the key press was delivered. *)
Lemma Dispatch_traps_on_tag_without_case_witness :
  Dispatch_loop (mkVector [1%nat] 1) 1 [(IEvent, Type_None); (click_2, Type_MouseButtonClick)]
                [(1%nat, key_a)]
  = mkOutcome DebugBreak
              (mkEventSystem [(IEvent, Type_None); (click_2, Type_MouseButtonClick)]
                             (mkVector [1%nat] 1))
              [(1%nat, key_a)].
Proof.
  apply (Dispatch_traps_on_tag_without_case
           nat (mkVector [1%nat] 1) 1 (IEvent, Type_None)
           [(click_2, Type_MouseButtonClick)] [(1%nat, key_a)]);
    reflexivity.
Defined.

(* ------------------------------------------------------------------ *)
(** ** AddEvent and AddEventListener *)

(** C7.  For an object [e] of a variant class [T], [AddEvent] puts one
    new entry at the tail of the queue: [e] itself, by value, paired with
    the static tag of [T].  The entries that were in the queue are still
    there, in place; the listeners are untouched.  [AddEvent] is a total
    function, so the call always succeeds.  The fields of an event are
    integers, booleans and characters and the parameter is passed by
    value, so the stored object is a value of its own. *)
Theorem AddEvent_appends_tagged_copy :
  forall (Listener : Type) (T : EventClass) (e : Event)
         (sys : EventSystem Listener),
    variant_of e = Some T ->
    sEventBus (AddEvent e sys) = sEventBus sys ++ [(e, GetStaticType T)] /\
    List.length (sEventBus (AddEvent e sys)) = S (List.length (sEventBus sys)) /\
    firstn (List.length (sEventBus sys)) (sEventBus (AddEvent e sys))
    = sEventBus sys /\
    skipn (List.length (sEventBus sys)) (sEventBus (AddEvent e sys))
    = [(e, GetStaticType T)] /\
    sEventListeners (AddEvent e sys) = sEventListeners sys.
Proof.
  intros Listener T e sys HT. unfold AddEvent. simpl.
  rewrite (GetType_variant_of e T HT).
  repeat split.
  - rewrite length_app. simpl. lia.
  - rewrite firstn_app, Nat.sub_diag, firstn_all. simpl. apply app_nil_r.
  - rewrite skipn_app, Nat.sub_diag, skipn_all. reflexivity.
Qed.

(** C7 for a key press added behind one queued entry. *)
Lemma AddEvent_appends_tagged_copy_witness :
  sEventBus (AddEvent key_a (mkEventSystem [(click_2, Type_MouseButtonClick)]
                                           (mkVector [1%nat] 1)))
  = [(click_2, Type_MouseButtonClick); (key_a, Type_KeyPress)].
Proof.
  apply (AddEvent_appends_tagged_copy
           nat KeyPress key_a
           (mkEventSystem [(click_2, Type_MouseButtonClick)] (mkVector [1%nat] 1))).
  reflexivity.
Defined.


Lemma register_all_data {Listener : Type} (growth : nat -> nat)
      (listeners : list Listener) :
  forall sys : EventSystem Listener,
    data (sEventListeners (register_all growth listeners sys))
    = data (sEventListeners sys) ++ listeners /\
    sEventBus (register_all growth listeners sys) = sEventBus sys.
Proof.
  unfold register_all.
  induction listeners as [|l listeners IH]; intro sys; simpl.
  - now rewrite app_nil_r.
  - destruct (IH (AddEventListener growth l sys)) as [Hd Hb].
    rewrite Hd, Hb. simpl. now rewrite <- app_assoc.
Qed.

(** C8.  [AddEventListener] puts the callback at the tail of the vector
    and leaves the queue alone.  Delivering an event calls the listeners
    in the order of the vector, so in the order of registration: with
    [L1] registered before [L2] (and any listeners [between]), the calls
    for an event are those of the earlier listeners, then [L1], then
    those in between, then [L2].  For a whole [Dispatch], the log is made
    of one such block per delivered entry. *)
Theorem AddEventListener_registration_order :
  forall (Listener : Type) (growth : nat -> nat) (L1 L2 : Listener)
         (between : list Listener) (sys : EventSystem Listener) (e : Event),
    let sys1 := AddEventListener growth L1 sys in
    let sys2 := AddEventListener growth L2 (register_all growth between sys1) in
    let block := fun x : Event =>
      IterateThroughEventListeners (data (sEventListeners sys)) x
        ++ [(L1, x)] ++ map (fun l => (l, x)) between ++ [(L2, x)] in
    data (sEventListeners sys1) = data (sEventListeners sys) ++ [L1] /\
    sEventBus sys1 = sEventBus sys /\
    data (sEventListeners sys2)
    = data (sEventListeners sys) ++ [L1] ++ between ++ [L2] /\
    sEventBus sys2 = sEventBus sys /\
    IterateThroughEventListeners (data (sEventListeners sys2)) e = block e /\
    exists k : nat,
      log (Dispatch sys2)
      = flat_map (fun event => block (fst event)) (firstn k (sEventBus sys2)).
Proof.
  intros Listener growth L1 L2 between sys e sys1 sys2 block.
  destruct (register_all_data growth between sys1) as [Hd Hb].
  assert (Hdata : data (sEventListeners sys2)
                  = data (sEventListeners sys) ++ [L1] ++ between ++ [L2]).
  { unfold sys2. unfold AddEventListener at 1. unfold push_back. simpl data.
    rewrite Hd. unfold sys1, AddEventListener, push_back. simpl.
    rewrite <- !app_assoc. reflexivity. }
  assert (Hiter : forall x,
             IterateThroughEventListeners (data (sEventListeners sys2)) x = block x).
  { intro x. rewrite Hdata. unfold block, IterateThroughEventListeners.
    rewrite !map_app. reflexivity. }
  repeat split; auto.
  destruct (Dispatch_loop_prefix (sEventBus sys2) (sEventListeners sys2) 0 [])
    as (k & _ & _ & _ & Hlog).
  exists k. unfold Dispatch. rewrite Hlog. simpl. unfold deliveries.
  apply flat_map_ext. intro a. apply Hiter.
Qed.

(* ------------------------------------------------------------------ *)
(** ** Init *)

Lemma reserve_data {A : Type} (n : nat) (v : Vector A) :
  data (reserve n v) = data v.
Proof. unfold reserve. destruct (capacity v <? n)%nat; reflexivity. Qed.

Lemma Init_same_contents {Listener : Type} (sys : EventSystem Listener) :
  same_contents (Init sys) sys.
Proof. split; [reflexivity | apply reserve_data]. Qed.

(** The loop reads the elements of the vector, never its capacity. *)
Lemma Dispatch_loop_same_contents {Listener : Type} (bus : EventBus) :
  forall (ls1 ls2 : Vector Listener) i done,
    data ls1 = data ls2 ->
    status (Dispatch_loop ls1 i bus done) = status (Dispatch_loop ls2 i bus done) /\
    log (Dispatch_loop ls1 i bus done) = log (Dispatch_loop ls2 i bus done) /\
    same_contents (system (Dispatch_loop ls1 i bus done))
                  (system (Dispatch_loop ls2 i bus done)).
Proof.
  unfold same_contents.
  induction bus as [|event rest IH]; intros ls1 ls2 i done Hdata.
  - rewrite !Dispatch_loop_nil. destruct (loop_condition i []); simpl; auto.
  - rewrite !Dispatch_loop_cons, <- Hdata.
    destruct (loop_condition i (event :: rest)); [|simpl; auto].
    destruct (Dispatch_switch (data ls1) event); [|simpl; auto..].
    destruct (i <? INT_MAX); [|simpl; auto].
    apply IH, Hdata.
Qed.

Lemma run_same_contents {Listener : Type} (growth : nat -> nat)
      (prog : list (ApiCall Listener)) :
  forall (a b : EventSystem Listener) done,
    same_contents a b ->
    observe (run growth prog a done) = observe (run growth prog b done).
Proof.
  induction prog as [|call prog IH]; intros a b done [Hbus Hdata].
  - unfold observe. simpl. now rewrite Hbus, Hdata.
  - destruct call as [|e|l|]; simpl run.
    + apply IH. split; simpl; [exact Hbus | now rewrite !reserve_data].
    + apply IH. split; simpl; [now rewrite Hbus | exact Hdata].
    + apply IH. split; simpl; [exact Hbus | now rewrite Hdata].
    + unfold Dispatch. rewrite Hbus.
      destruct (Dispatch_loop_same_contents
                  (sEventBus b) (sEventListeners a) (sEventListeners b) 0 [] Hdata)
        as (Hst & Hlog & Hsys).
      rewrite Hst, Hlog.
      destruct (status (Dispatch_loop (sEventListeners b) 0 (sEventBus b) [])).
      * apply IH, Hsys.
      * unfold observe. destruct Hsys as [H1 H2]. simpl. now rewrite H1, H2.
      * unfold observe. destruct Hsys as [H1 H2]. simpl. now rewrite H1, H2.
      * unfold observe. destruct Hsys as [H1 H2]. simpl. now rewrite H1, H2.
      * unfold observe. destruct Hsys as [H1 H2]. simpl. now rewrite H1, H2.
Qed.

(** C9.  [Init] changes neither the queue nor the elements of the
    listener vector, only the reserved capacity; and every program of
    later [Init], [AddEvent], [AddEventListener] and [Dispatch] calls
    ends the same way, with the same queue, the same listeners and the
    same invocations, whether it starts after [Init] or without it. *)
Theorem Init_not_observable :
  forall (Listener : Type) (growth : nat -> nat)
         (sys : EventSystem Listener) (prog : list (ApiCall Listener))
         (done : list (Invocation Listener)),
    sEventBus (Init sys) = sEventBus sys /\
    data (sEventListeners (Init sys)) = data (sEventListeners sys) /\
    (capacity (sEventListeners (Init sys)) >= 69)%nat /\
    observe (run growth prog (Init sys) done) = observe (run growth prog sys done).
Proof.
  intros Listener growth sys prog done.
  repeat split.
  - apply reserve_data.
  - unfold Init, reserve. simpl.
    destruct (capacity (sEventListeners sys) <? 69)%nat eqn:E; simpl.
    + lia.
    + apply Nat.ltb_ge in E. lia.
  - apply run_same_contents, Init_same_contents.
Qed.

(* ------------------------------------------------------------------ *)
(** ** No entry is delivered twice *)

Lemma IterateThroughEventListeners_In {Listener : Type}
      (listeners : list Listener) (e : Event) (call : Invocation Listener) :
  In call (IterateThroughEventListeners listeners e) ->
  In (fst call) listeners /\ snd call = e.
Proof.
  unfold IterateThroughEventListeners. rewrite in_map_iff.
  intros (l & <- & Hl). auto.
Qed.

Lemma IterateThroughEventListeners_NoDup {Listener : Type}
      (listeners : list Listener) (e : Event) :
  NoDup listeners -> NoDup (IterateThroughEventListeners listeners e).
Proof.
  unfold IterateThroughEventListeners.
  induction 1 as [|l ls Hnotin Hnd IH]; simpl; constructor; auto.
  rewrite in_map_iff. intros (l' & Heq & Hin). inversion Heq; subst. auto.
Qed.

(** Distinct entries and distinct listeners give distinct invocations. *)
Lemma deliveries_NoDup {Listener : Type} (listeners : list Listener)
      (entries : EventBus) :
  NoDup (map fst entries) -> NoDup listeners ->
  NoDup (deliveries listeners entries).
Proof.
  intros Hentries Hls.
  induction entries as [|event rest IH]; simpl; [constructor|].
  inversion Hentries as [|? ? Hnotin Hrest]; subst.
  apply NoDup_app.
  - now apply IterateThroughEventListeners_NoDup.
  - now apply IH.
  - intros call Hin Hin'.
    apply IterateThroughEventListeners_In in Hin. destruct Hin as [_ Hsnd].
    apply in_flat_map in Hin'. destruct Hin' as (event' & Hev & Hcall).
    apply IterateThroughEventListeners_In in Hcall. destruct Hcall as [_ Hsnd'].
    apply Hnotin. rewrite <- Hsnd, Hsnd'. now apply in_map.
Qed.

(** C10.  Whatever the loop bound lets [Dispatch] do and however the
    call ends, the entries it delivered are the first [k] entries of the
    queue, each delivered in one block of one call per listener, and
    these [k] entries are exactly the ones that left the queue: an entry
    that was delivered is no longer there for a later iteration.  So
    when the queued events are pairwise different and so are the
    listeners, no invocation occurs twice in the log. *)
Theorem Dispatch_never_delivers_twice :
  forall (Listener : Type) (sys : EventSystem Listener),
    (exists k : nat,
        (k <= List.length (sEventBus sys))%nat /\
        sEventBus (system (Dispatch sys)) = skipn k (sEventBus sys) /\
        log (Dispatch sys)
        = deliveries (data (sEventListeners sys)) (firstn k (sEventBus sys))) /\
    (NoDup (map fst (sEventBus sys)) ->
     NoDup (data (sEventListeners sys)) ->
     NoDup (log (Dispatch sys))).
Proof.
  intros Listener sys.
  destruct (Dispatch_loop_prefix (sEventBus sys) (sEventListeners sys) 0 [])
    as (k & Hk & Hbus & _ & Hlog).
  fold (Dispatch sys) in Hbus, Hlog. simpl in Hlog.
  split.
  - exists k. auto.
  - intros Hev Hls. rewrite Hlog. apply deliveries_NoDup; [|exact Hls].
    rewrite <- (firstn_skipn k (sEventBus sys)), map_app in Hev.
    now apply NoDup_app_remove_r in Hev.
Qed.

(** C10 on the queue of four: the three invocations are all different. *)
Lemma Dispatch_never_delivers_twice_witness :
  NoDup (log (Dispatch four_queued)).
Proof.
  apply (Dispatch_never_delivers_twice nat four_queued).
  - vm_compute. repeat constructor; simpl; intuition discriminate.
  - vm_compute. repeat constructor; simpl; intuition.
Defined.

(* ================================================================== *)
(** * Further properties of the header and of the example program *)

(* ------------------------------------------------------------------ *)
(** ** ToString across calls *)

Lemma string_app_assoc (a b c : string) :
  ((a ++ b) ++ c)%string = (a ++ (b ++ c))%string.
Proof. induction a as [|ch a IH]; simpl; [reflexivity | now rewrite IH]. Qed.

Lemma string_app_nil_r (a : string) : (a ++ EmptyString)%string = a.
Proof. induction a as [|ch a IH]; simpl; [reflexivity | now rewrite IH]. Qed.

Lemma EventClass_eqb_eq (T V : EventClass) :
  EventClass_eqb T V = true <-> T = V.
Proof.
  unfold EventClass_eqb. rewrite EventType_eqb_eq. split.
  - apply GetStaticType_injective.
  - now intros ->.
Qed.

Lemma inserted_text_variant (e : Event) (T : EventClass) :
  variant_of e = Some T -> exists text, inserted_text e = Some text.
Proof. destruct e; intro H; try discriminate H; eexists; reflexivity. Qed.

(** X1, at a resize event in a fresh program. *)
Lemma ToString_first_call_witness :
  returned_text (ToString resize initial_statics)
  = Some ("[Event:WindowResize]: Width: (800), Height: (600)" ++ newline)%string.
Proof.
  rewrite (ToString_first_call resize WindowResize initial_statics);
    reflexivity.
Defined.

(** X2, at two key presses with different keys. *)
Lemma ToString_later_calls_witness :
  returned_text
    (ToString (KeyPressEvent 98 true false false)
              (statics_after (ToString key_a initial_statics) initial_statics))
  = returned_text (ToString key_a initial_statics).
Proof.
  apply (ToString_later_calls key_a (KeyPressEvent 98 true false false) KeyPress);
    reflexivity.
Defined.

(** X3.  The statics belong to one override: describing an object of
    one class changes nothing for the objects of another class, which
    are described exactly as if the first call had not been made. *)
Theorem ToString_other_class_unaffected :
  forall (e e' : Event) (T T' : EventClass) (st : StaticStore),
    variant_of e = Some T ->
    variant_of e' = Some T' ->
    T <> T' ->
    statics_after (ToString e st) st T' = st T' /\
    returned_text (ToString e' (statics_after (ToString e st) st))
    = returned_text (ToString e' st).
Proof.
  intros e e' T T' st HT HT' Hne.
  assert (Hframe : statics_after (ToString e st) st T' = st T').
  { unfold ToString. rewrite HT.
    destruct (inserted_text e); [|reflexivity].
    simpl. unfold set_statics.
    destruct (EventClass_eqb T' T) eqn:E; [|reflexivity].
    apply EventClass_eqb_eq in E. congruence. }
  split; [exact Hframe|].
  unfold ToString at 1 3. rewrite HT'.
  destruct (inserted_text e'); [|reflexivity].
  simpl. now rewrite Hframe.
Qed.

(** X3, at a key press described before a mouse click. *)
Lemma ToString_other_class_unaffected_witness :
  returned_text
    (ToString click_2 (statics_after (ToString key_a initial_statics) initial_statics))
  = returned_text (ToString click_2 initial_statics).
Proof.
  apply (ToString_other_class_unaffected key_a click_2 KeyPress MouseButtonClick);
    [reflexivity | reflexivity | discriminate].
Defined.

Lemma ToString_each_initialised (T : EventClass) (events : list Event) :
  forall (st : StaticStore) (stream text : string),
    Forall (fun x => variant_of x = Some T) events ->
    st T = mkStatics stream (Some text) ->
    fst (ToString_each events st) = repeat (Some text) (List.length events) /\
    snd (ToString_each events st) T
    = mkStatics (stream ++ formatted_text events)%string (Some text).
Proof.
  induction events as [|e events IH]; intros st stream text Hall Hst.
  - simpl. now rewrite string_app_nil_r.
  - inversion Hall as [|? ? HT Hall']; subst.
    destruct (inserted_text_variant e T HT) as [txt Htxt].
    assert (Hnext : statics_after (ToString e st) st T
                    = mkStatics (stream ++ txt)%string (Some text)).
    { unfold ToString. rewrite HT, Htxt, Hst. simpl.
      unfold set_statics. now rewrite EventClass_eqb_refl. }
    assert (Hret : returned_text (ToString e st) = Some text).
    { unfold ToString. rewrite HT, Htxt, Hst. reflexivity. }
    destruct (IH _ _ _ Hall' Hnext) as [Hfst Hsnd].
    simpl. rewrite Hret, Hfst, Hsnd, Htxt, string_app_assoc. auto.
Qed.

(** X4.  A run of calls on objects of one class, starting before the
    override was ever called: every call returns the description of the
    first object, while the static stream has grown by the text of every
    object, in call order. *)
Theorem ToString_each_returns_first_and_accumulates :
  forall (T : EventClass) (e : Event) (events : list Event) (st : StaticStore),
    variant_of e = Some T ->
    Forall (fun x => variant_of x = Some T) events ->
    st T = mkStatics EmptyString None ->
    fst (ToString_each (e :: events) st)
    = repeat (inserted_text e) (S (List.length events)) /\
    oss (snd (ToString_each (e :: events) st) T) = formatted_text (e :: events) /\
    s (snd (ToString_each (e :: events) st) T) = inserted_text e.
Proof.
  intros T e events st HT Hall Hst.
  destruct (inserted_text_variant e T HT) as [txt Htxt].
  assert (Hnext : statics_after (ToString e st) st T = mkStatics txt (Some txt)).
  { unfold ToString. rewrite HT, Htxt, Hst. simpl.
    unfold set_statics. now rewrite EventClass_eqb_refl. }
  assert (Hret : returned_text (ToString e st) = Some txt).
  { unfold ToString. rewrite HT, Htxt, Hst. reflexivity. }
  destruct (ToString_each_initialised T events _ _ _ Hall Hnext) as [Hfst Hsnd].
  simpl. rewrite Hret, Hfst, Hsnd, Htxt. simpl. auto.
Qed.

(** X4, at three key presses. *)
Lemma ToString_each_returns_first_and_accumulates_witness :
  fst (ToString_each [key_a; KeyPressEvent 98 false false false;
                      KeyPressEvent 99 false false false] initial_statics)
  = repeat (inserted_text key_a) 3.
Proof.
  apply (ToString_each_returns_first_and_accumulates
           KeyPress key_a
           [KeyPressEvent 98 false false false; KeyPressEvent 99 false false false]
           initial_statics).
  - reflexivity.
  - repeat constructor.
  - reflexivity.
Defined.

(** X5.  [ToString] gives a string exactly for the objects of the eleven
    classes with an override; for the objects whose tag is [Type_None]
    ([IEvent] and the four category bases) it is [IEvent::ToString], which
    returns a reference to a temporary. *)
Theorem ToString_dangling_iff_Type_None :
  forall (e : Event) (st : StaticStore),
    (ToString e st = DanglingReference <-> GetType e = Type_None) /\
    (returned_text (ToString e st) <> None <-> has_case (GetType e) = true).
Proof.
  intros e st. destruct e; simpl; split; split; intro H;
    try reflexivity; try discriminate H; try congruence.
Qed.

(* ------------------------------------------------------------------ *)
(** ** Tags and categories *)

(** X6.  The type macro gives the eleven variant classes eleven
    different tags, numbered 0 to 10, none of them the sentinel; so the
    tag an object reports through [GetType] equals the static tag of a
    class exactly when the object is of that class, and two objects with
    the same tag other than [Type_None] are of the same class. *)
Theorem type_tag_identifies_class :
  forall (e e' : Event) (T T' : EventClass),
    (GetType e = GetStaticType T <-> variant_of e = Some T) /\
    (GetStaticType T = GetStaticType T' <-> T = T') /\
    0 <= EventType_value (GetStaticType T) <= 10 /\
    EventType_value Type_None = -1 /\
    (GetType e = GetType e' -> GetType e <> Type_None ->
     variant_of e = variant_of e').
Proof.
  intros e e' T T'. repeat split.
  - intro H. now apply is_instance_variant_of, is_instance_GetType.
  - apply GetType_variant_of.
  - apply GetStaticType_injective.
  - now intros ->.
  - destruct T; simpl; lia.
  - destruct T; simpl; lia.
  - destruct e; simpl; intros H Hne; try congruence;
      destruct e'; simpl in H; try discriminate H; reflexivity.
Qed.

(** X6, at two key presses with different keys. *)
Lemma type_tag_identifies_class_witness :
  variant_of key_a = variant_of (KeyPressEvent 98 false true false).
Proof.
  apply (type_tag_identifies_class key_a (KeyPressEvent 98 false true false)
                                   KeyPress KeyPress);
    [reflexivity | discriminate].
Defined.

(** X7.  The category of an object is fixed by its type tag: two
    objects that report the same tag, other than [Type_None], report the
    same category.  The mouse button events are in
    [Category_MouseButton], not in [Category_Mouse]. *)
Theorem category_determined_by_type :
  forall (e e' : Event),
    GetType e = GetType e' ->
    GetType e <> Type_None ->
    GetCategory e = GetCategory e' /\
    GetCategory e <> Category_None /\
    (GetType e = Type_MouseButtonClick \/ GetType e = Type_MouseButtonRelease ->
     GetCategory e = Category_MouseButton).
Proof.
  intros e e' H Hne.
  destruct e; simpl in *; try congruence;
    destruct e'; simpl in H; try discriminate H;
    repeat split; try discriminate; intros [Hc | Hc]; try discriminate Hc;
    reflexivity.
Qed.

(** X7, at two mouse clicks. *)
Lemma category_determined_by_type_witness :
  GetCategory click_2 = GetCategory (MouseButtonClickEvent 1 true false false) /\
  GetCategory click_2 <> Category_None /\
  (GetType click_2 = Type_MouseButtonClick \/
   GetType click_2 = Type_MouseButtonRelease ->
   GetCategory click_2 = Category_MouseButton).
Proof.
  apply (category_determined_by_type click_2 (MouseButtonClickEvent 1 true false false));
    [reflexivity | discriminate].
Defined.

(** X8.  The four categories are four different bits, so testing a
    category value against a category with bitwise [&] is non-zero
    exactly for the same category.  [Category_None] is [-1], all bits
    set: against any category the test gives that category back, so the
    plain [IEvent] object passes every such test. *)
Theorem category_values_are_disjoint_bits :
  forall (c c' : EventCategory),
    (c <> Category_None -> c' <> Category_None ->
     Z.land (EventCategory_value c) (EventCategory_value c')
     = if Z.eqb (EventCategory_value c) (EventCategory_value c')
       then EventCategory_value c else 0) /\
    (c <> Category_None -> c' <> Category_None ->
     (Z.land (EventCategory_value c) (EventCategory_value c') <> 0 <-> c = c')) /\
    Z.land (EventCategory_value Category_None) (EventCategory_value c')
    = EventCategory_value c' /\
    Z.land (EventCategory_value (GetCategory IEvent)) (EventCategory_value c') <> 0.
Proof.
  intros c c'. split; [|split; [|split]].
  - intros Hc Hc'. destruct c, c'; try congruence; reflexivity.
  - intros Hc Hc'. split.
    + intro Hland. destruct c, c'; try congruence; try reflexivity;
        exfalso; apply Hland; reflexivity.
    + intros <-. destruct c; try congruence; discriminate.
  - destruct c'; reflexivity.
  - destruct c'; discriminate.
Qed.

(** X8, at the mouse and the mouse button categories. *)
Lemma category_values_are_disjoint_bits_witness :
  Z.land (EventCategory_value Category_Mouse)
         (EventCategory_value Category_MouseButton) = 0.
Proof.
  apply (proj1 (category_values_are_disjoint_bits Category_Mouse Category_MouseButton));
    discriminate.
Defined.

(* ------------------------------------------------------------------ *)
(** ** How far one Dispatch gets *)

Lemma Dispatch_loop_FrontOfEmptyQueue {Listener : Type} (bus : EventBus) :
  forall (ls : Vector Listener) i done,
    status (Dispatch_loop ls i bus done) = FrontOfEmptyQueue ->
    sEventBus (system (Dispatch_loop ls i bus done)) = [].
Proof.
  induction bus as [|event rest IH]; intros ls i done.
  - rewrite Dispatch_loop_nil. destruct (loop_condition i []); reflexivity.
  - rewrite Dispatch_loop_cons.
    destruct (loop_condition i (event :: rest)); [|discriminate].
    destruct (Dispatch_switch (data ls) event); try discriminate.
    destruct (i <? INT_MAX); [apply IH | discriminate].
Qed.


(** X9.  On a queue of at most one entry (as [AddEvent] makes them, tag
    with a case label) [Dispatch] delivers what is there and then goes
    round once more: it ends reading the front of the empty queue. *)
Theorem Dispatch_short_queue_reads_empty_front :
  forall (Listener : Type) (sys : EventSystem Listener),
    (List.length (sEventBus sys) <= 1)%nat ->
    well_tagged (sEventBus sys) ->
    all_handled (sEventBus sys) ->
    status (Dispatch sys) = FrontOfEmptyQueue /\
    sEventBus (system (Dispatch sys)) = [] /\
    log (Dispatch sys) = deliveries (data (sEventListeners sys)) (sEventBus sys).
Proof.
  intros Listener sys Hlen Htag Hcase.
  assert (Hsmall : 0 + size (sEventBus sys) < INT_MAX)
    by (unfold size, INT_MAX; lia).
  pose proof (Dispatch_loop_count (sEventBus sys) (sEventListeners sys) 0 []
                (Z.le_refl 0) Hsmall Htag Hcase) as H.
  replace (0 + size (sEventBus sys) <=? 1) with true in H
    by (unfold size; lia).
  destruct H as [Hst Hlog]. fold (Dispatch sys) in Hst, Hlog.
  repeat split; auto.
  now apply Dispatch_loop_FrontOfEmptyQueue.
Qed.

(** X9, at a queue holding one key press. *)
Lemma Dispatch_short_queue_reads_empty_front_witness :
  status (Dispatch (AddEvent key_a (AddEventListener doubling 1%nat initial_system)))
  = FrontOfEmptyQueue.
Proof.
  apply (Dispatch_short_queue_reads_empty_front
           nat (AddEvent key_a (AddEventListener doubling 1%nat initial_system))).
  - simpl. lia.
  - repeat constructor.
  - repeat constructor.
Defined.

(** X10.  On a queue of [n >= 2] entries (as [AddEvent] makes them, tags
    with a case label, [n] below [INT_MAX]) [Dispatch] returns normally
    after exactly [1 + (n + 1) / 2] iterations: it has delivered that
    many entries from the front, in order, and left the others in the
    queue.  From [n = 4] on at least one entry is left undelivered. *)
Theorem Dispatch_number_of_iterations :
  forall (Listener : Type) (sys : EventSystem Listener),
    let n := List.length (sEventBus sys) in
    let k := S (Nat.div (S n) 2) in
    (2 <= n)%nat ->
    size (sEventBus sys) < INT_MAX ->
    well_tagged (sEventBus sys) ->
    all_handled (sEventBus sys) ->
    status (Dispatch sys) = Completed /\
    sEventBus (system (Dispatch sys)) = skipn k (sEventBus sys) /\
    log (Dispatch sys)
    = deliveries (data (sEventListeners sys)) (firstn k (sEventBus sys)) /\
    List.length (sEventBus (system (Dispatch sys))) = (n - k)%nat /\
    ((4 <= n)%nat -> sEventBus (system (Dispatch sys)) <> []).
Proof.
  intros Listener sys n k Hn Hsmall Htag Hcase.
  pose proof (Dispatch_count sys Hsmall Htag Hcase) as H.
  replace (size (sEventBus sys) <=? 1) with false in H
    by (unfold size; fold n; lia).
  destruct H as [Hst (k' & Hk' & Hbound & Hbus & Hlog)].
  assert (Hk : k' = k).
  { unfold k. unfold size in Hbound. fold n in Hbound.
    pose proof (Nat.div_mod_eq (S n) 2) as Hdiv.
    pose proof (Nat.mod_upper_bound (S n) 2) as Hmod.
    lia. }
  subst k'.
  assert (Hlen : List.length (sEventBus (system (Dispatch sys))) = (n - k)%nat)
    by (rewrite Hbus; apply length_skipn).
  repeat split; auto.
  intros H4 Hnil. rewrite Hnil in Hlen. simpl in Hlen.
  unfold k in Hlen.
  pose proof (Nat.div_mod_eq (S n) 2) as Hdiv.
  pose proof (Nat.mod_upper_bound (S n) 2) as Hmod.
  lia.
Qed.

(** X10, at the queue of four. *)
Lemma Dispatch_number_of_iterations_witness :
  List.length (sEventBus (system (Dispatch four_queued))) = 1%nat.
Proof.
  apply (Dispatch_number_of_iterations nat four_queued).
  - simpl. lia.
  - reflexivity.
  - repeat constructor.
  - repeat constructor.
Defined.

(** X11, at the two events of the example program. *)
Lemma Dispatch_drains_iff_witness :
  sEventBus (system (Dispatch (AddEventListener doubling 1%nat
                                 (enqueue_all [key_a; click_2] initial_system))))
  = [].
Proof.
  apply (Dispatch_drains_iff
           (AddEventListener doubling 1%nat
              (enqueue_all [key_a; click_2] initial_system))).
  - reflexivity.
  - repeat constructor.
  - repeat constructor.
  - left. reflexivity.
Defined.

(* ------------------------------------------------------------------ *)
(** ** Programs of calls *)


Lemma run_continues {Listener : Type} (growth : nat -> nat)
      (prog : list (ApiCall Listener)) (sys : EventSystem Listener)
      (done : list (Invocation Listener)) :
  status (Dispatch sys) = Completed ->
  run growth (CallDispatch :: prog) sys done
  = run growth prog (system (Dispatch sys)) (done ++ log (Dispatch sys)).
Proof. intro H. simpl. now rewrite H. Qed.






Lemma Dispatch_bus_suffix {Listener : Type} (sys : EventSystem Listener) :
  exists k : nat,
    sEventBus (system (Dispatch sys)) = skipn k (sEventBus sys) /\
    sEventListeners (system (Dispatch sys)) = sEventListeners sys.
Proof.
  destruct (Dispatch_loop_prefix (sEventBus sys) (sEventListeners sys) 0 [])
    as (k & _ & Hbus & Hls & _).
  exists k. auto.
Qed.







(** X15.  An object of a class without a type macro ([IEvent] itself or
    one of the category bases) is accepted by [AddEvent], under the tag
    [Type_None]; the [Dispatch] that finds it at the front of the queue
    stops in the breakpoint, with the object still queued and no
    listener called. *)
Theorem base_class_object_traps_Dispatch :
  forall (Listener : Type) (e : Event) (ls : Vector Listener),
    variant_of e = None ->
    sEventBus (AddEvent e (mkEventSystem [] ls)) = [(e, Type_None)] /\
    Dispatch (AddEvent e (mkEventSystem [] ls))
    = mkOutcome DebugBreak (mkEventSystem [(e, Type_None)] ls) [].
Proof.
  intros Listener e ls He.
  apply GetType_no_variant in He.
  unfold AddEvent. simpl. rewrite He. split; reflexivity.
Qed.

(** X15, at a [MouseButtonEvent] object. *)
Lemma base_class_object_traps_Dispatch_witness :
  status (Dispatch (AddEvent (MouseButtonEvent 1 false false false)
                             (mkEventSystem [] (mkVector [1%nat] 1))))
  = DebugBreak.
Proof.
  rewrite (proj2 (base_class_object_traps_Dispatch
                    nat (MouseButtonEvent 1 false false false)
                    (mkVector [1%nat] 1) eq_refl)).
  reflexivity.
Defined.

Lemma Dispatch_loop_never_SignedOverflow {Listener : Type} (bus : EventBus) :
  forall (ls : Vector Listener) i done,
    i + size bus <= INT_MAX ->
    status (Dispatch_loop ls i bus done) <> SignedOverflow.
Proof.
  induction bus as [|event rest IH]; intros ls i done Hsmall.
  - rewrite Dispatch_loop_nil. destruct (loop_condition i []); discriminate.
  - rewrite Dispatch_loop_cons.
    assert (Hsz : size (event :: rest) = size rest + 1)
      by (unfold size; simpl List.length; lia).
    rewrite Hsz in Hsmall.
    destruct (loop_condition i (event :: rest)); [|discriminate].
    destruct (Dispatch_switch (data ls) event); try discriminate.
    replace (i <? INT_MAX) with true by (unfold size in *; lia).
    apply IH. lia.
Qed.

(** X16.  The [int] counter of the loop never overflows as long as the
    queue holds at most [INT_MAX] entries, whatever the entries are. *)
Theorem Dispatch_counter_never_overflows :
  forall (Listener : Type) (sys : EventSystem Listener),
    size (sEventBus sys) <= INT_MAX ->
    status (Dispatch sys) <> SignedOverflow.
Proof.
  intros Listener sys H. unfold Dispatch.
  apply Dispatch_loop_never_SignedOverflow. lia.
Qed.

(** X16, at the queue of four. *)
Lemma Dispatch_counter_never_overflows_witness :
  status (Dispatch four_queued) <> SignedOverflow.
Proof.
  apply (Dispatch_counter_never_overflows nat four_queued).
  vm_compute. discriminate.
Defined.

(** X17.  Nothing in the interface removes a listener: however a
    program of calls ends, the listeners registered at its start are
    still registered, in place, at the front of the vector; and when it
    runs to its end, the vector holds them followed by the listeners the
    program registered, in the order of the calls.  [Dispatch] itself
    leaves the vector exactly as it was. *)
Theorem listeners_are_never_removed :
  forall (Listener : Type) (growth : nat -> nat)
         (prog : list (ApiCall Listener)) (sys : EventSystem Listener)
         (done : list (Invocation Listener)),
    sEventListeners (system (Dispatch sys)) = sEventListeners sys /\
    (exists more,
        data (sEventListeners (system (run growth prog sys done)))
        = data (sEventListeners sys) ++ more) /\
    (status (run growth prog sys done) = Completed ->
     data (sEventListeners (system (run growth prog sys done)))
     = data (sEventListeners sys) ++ registered prog).
Proof.
  intros Listener growth prog sys done.
  split; [destruct (Dispatch_bus_suffix sys) as (k & _ & H); exact H|].
  revert sys done.
  induction prog as [|call prog IH]; intros sys done.
  - simpl. rewrite app_nil_r. split; [exists []; now rewrite app_nil_r | auto].
  - destruct call as [|e|l|].
    + destruct (IH (Init sys) done) as [[more Hmore] Hall].
      simpl run. simpl registered.
      change (data (sEventListeners (Init sys)))
        with (data (reserve 69 (sEventListeners sys))) in *.
      rewrite reserve_data in *. split; [exists more|]; assumption.
    + destruct (IH (AddEvent e sys) done) as [[more Hmore] Hall].
      simpl run. split; [exists more|]; assumption.
    + destruct (IH (AddEventListener growth l sys) done) as [[more Hmore] Hall].
      simpl run. simpl registered. simpl in Hmore, Hall.
      rewrite <- app_assoc in Hmore, Hall. simpl in Hmore, Hall.
      split; [exists (l :: more)|]; assumption.
    + destruct (Dispatch_bus_suffix sys) as (k & _ & Hls).
      destruct (status (Dispatch sys)) eqn:Hst.
      * rewrite run_continues by exact Hst.
        destruct (IH (system (Dispatch sys)) (done ++ log (Dispatch sys)))
          as [[more Hmore] Hall].
        rewrite Hls in Hmore, Hall. simpl registered.
        split; [exists more|]; assumption.
      * simpl run. rewrite Hst. simpl. rewrite Hls.
        split; [exists []; now rewrite app_nil_r | discriminate].
      * simpl run. rewrite Hst. simpl. rewrite Hls.
        split; [exists []; now rewrite app_nil_r | discriminate].
      * simpl run. rewrite Hst. simpl. rewrite Hls.
        split; [exists []; now rewrite app_nil_r | discriminate].
      * simpl run. rewrite Hst. simpl. rewrite Hls.
        split; [exists []; now rewrite app_nil_r | discriminate].
Qed.

(** X17, at the example program run after one listener was registered. *)
Lemma listeners_are_never_removed_witness :
  data (sEventListeners
          (system (run doubling (example_program 97 2)
                       (AddEventListener doubling tt initial_system) [])))
  = [tt; tt].
Proof.
  apply (listeners_are_never_removed
           unit doubling (example_program 97 2)
           (AddEventListener doubling tt initial_system) []).
  reflexivity.
Defined.

(* ------------------------------------------------------------------ *)
(** ** Several Dispatch calls on one EventDispatcher *)

Lemma dispatch_each_from (classes : list EventClass) (e : Event) :
  forall calls : nat,
    fold_left
      (fun n T =>
         snd (EventDispatcher_Dispatch T counting_handler (mkEventDispatcher e) n))
      classes calls
    = (calls + List.length
                 (filter (fun T => EventType_eqb (GetType e) (GetStaticType T))
                         classes))%nat.
Proof.
  induction classes as [|T classes IH]; intro calls; simpl.
  - lia.
  - rewrite IH. unfold EventDispatcher_Dispatch. simpl mEvent.
    destruct (EventType_eqb (GetType e) (GetStaticType T)); simpl; lia.
Qed.

Lemma filter_NoDup_at_most_one {A : Type} (p : A -> bool) (l : list A) :
  (forall x y, p x = true -> p y = true -> x = y) ->
  NoDup l -> (List.length (filter p l) <= 1)%nat.
Proof.
  intros Huniq Hnd. induction Hnd as [|x l Hnotin Hnd IH]; simpl; [lia|].
  destruct (p x) eqn:Hx; [|exact IH].
  assert (Hnone : filter p l = []).
  { destruct (filter p l) as [|y rest] eqn:Hf; [reflexivity|].
    assert (Hy : In y (filter p l)) by (rewrite Hf; now left).
    apply filter_In in Hy. destruct Hy as [Hin Hpy].
    rewrite (Huniq x y Hx Hpy) in Hnotin. contradiction. }
  rewrite Hnone. simpl. lia.
Qed.

(** X18.  A listener that tries [Dispatch<T>] for several classes on one
    dispatcher: the handlers that run are those of the tries whose class
    is the class of the event, one run per such try.  So with each class
    tried once at most one handler runs, exactly one when the class of
    the event is among them, and for an object whose tag is [Type_None]
    no handler ever runs. *)
Theorem dispatch_each_runs_matching_handler :
  forall (classes : list EventClass) (e : Event),
    (forall T, variant_of e = Some T ->
               dispatch_each classes e
               = List.length (filter (EventClass_eqb T) classes)) /\
    (variant_of e = None -> dispatch_each classes e = 0%nat) /\
    (NoDup classes -> (dispatch_each classes e <= 1)%nat) /\
    (NoDup classes ->
     forall T, variant_of e = Some T -> In T classes ->
               dispatch_each classes e = 1%nat).
Proof.
  intros classes e. unfold dispatch_each. rewrite dispatch_each_from. simpl.
  assert (Hmatch : forall T, variant_of e = Some T ->
             filter (fun V => EventType_eqb (GetType e) (GetStaticType V)) classes
             = filter (EventClass_eqb T) classes).
  { intros T HT. apply filter_ext. intro V.
    rewrite (GetType_variant_of e T HT). reflexivity. }
  assert (Hone : NoDup classes ->
             (List.length
                (filter (fun V => EventType_eqb (GetType e) (GetStaticType V)) classes)
              <= 1)%nat).
  { apply filter_NoDup_at_most_one. intros x y Hx Hy.
    apply EventType_eqb_eq in Hx, Hy. apply GetStaticType_injective. congruence. }
  split; [|split; [|split]].
  - intros T HT. now rewrite (Hmatch T HT).
  - intro Hnone. apply GetType_no_variant in Hnone. rewrite Hnone.
    clear Hmatch Hone Hnone.
    induction classes as [|V classes IH]; [reflexivity|].
    destruct V; exact IH.
  - exact Hone.
  - intros Hnd T HT Hin. specialize (Hone Hnd).
    rewrite (Hmatch T HT) in *.
    assert (Hin' : In T (filter (EventClass_eqb T) classes)).
    { apply filter_In. split; [exact Hin | apply EventClass_eqb_refl]. }
    destruct (filter (EventClass_eqb T) classes) as [|x rest];
      [contradiction | simpl in *; lia].
Qed.

(** X18, at a mouse click tried against three classes. *)
Lemma dispatch_each_runs_matching_handler_witness :
  dispatch_each [KeyPress; MouseButtonClick; KeyRelease] click_2 = 1%nat.
Proof.
  destruct (dispatch_each_runs_matching_handler
              [KeyPress; MouseButtonClick; KeyRelease] click_2)
    as (_ & _ & _ & Hone).
  apply Hone with (T := MouseButtonClick).
  - repeat constructor; simpl; intuition discriminate.
  - reflexivity.
  - simpl. auto.
Defined.

(* ------------------------------------------------------------------ *)
(** ** The example program *)

(** X19.  What the listener of the example does with one event, when
    the override of the event's class has not been called before: it
    prints the description of the event, and after it, for a key press
    only, the key as a character and a line break. *)
Theorem main_listener_prints_description :
  forall (e : Event) (T : EventClass) (text : string) (p : Process),
    variant_of e = Some T ->
    inserted_text e = Some text ->
    statics p T = mkStatics EmptyString None ->
    exists st,
      main_listener e p
      = Some (mkProcess
                (match e with
                 | KeyPressEvent mKey _ _ _ =>
                     (console p ++ text) ++ put_char (char_of_int mKey) ++ newline
                 | _ => console p ++ text
                 end)%string
                st).
Proof.
  intros e T text p HT Htext Hfresh.
  unfold main_listener, ToString. rewrite HT, Htext, Hfresh. simpl.
  eexists. f_equal. f_equal.
  destruct e; try discriminate HT; reflexivity.
Qed.

(** X19, at the mouse click of the example in a fresh process. *)
Lemma main_listener_prints_description_witness :
  exists st,
    main_listener click_2 (mkProcess EmptyString initial_statics)
    = Some (mkProcess
              ("[Event:MouseButtonClick]: Button: (2), Control: (0), Shift: (0), Alt: (0)"
                 ++ newline)%string
              st).
Proof.
  apply (main_listener_prints_description
           click_2 MouseButtonClick
           ("[Event:MouseButtonClick]: Button: (2), Control: (0), Shift: (0), Alt: (0)"
              ++ newline)%string
           (mkProcess EmptyString initial_statics));
    reflexivity.
Defined.

(** X20.  The example program, for any key and any button: the call of
    [Dispatch] returns normally and the program has printed the
    description of the key press, the key as a character on a line of
    its own, and the description of the mouse click, in this order.  The
    listener is registered after the events were enqueued and still
    receives both.  For [main] itself this is the text with key 97,
    the letter a, and button 2. *)
Theorem example_program_output :
  forall (key button : Z),
    example_run key button
    = (Completed,
       Some ((("[Event:KeyPress]: Key: (" ++ put_int key
                 ++ "), Control: (0), Shift: (0), Alt: (0)" ++ newline)
                ++ put_char (char_of_int key) ++ newline)
               ++ "[Event:MouseButtonClick]: Button: (" ++ put_int button
               ++ "), Control: (0), Shift: (0), Alt: (0)" ++ newline)%string) /\
    main
    = (Completed,
       Some ("[Event:KeyPress]: Key: (97), Control: (0), Shift: (0), Alt: (0)"
               ++ newline ++ "a" ++ newline
               ++ "[Event:MouseButtonClick]: Button: (2), Control: (0), Shift: (0), Alt: (0)"
               ++ newline)%string).
Proof.
  intros key button. split; reflexivity.
Qed.
